(** * Optimal currency hedge ratio: a model of
      [Optimal_Currency_Hedge_Ratio.py]

    The module has a single computation, [calculate_optimal_hedge_ratio].
    It is written against NumPy: every quantity is an IEEE-754 binary64
    value and no arithmetic step raises (a division by zero yields an
    infinity or a NaN).  The function is embedded once, over an abstract
    carrier of numbers, and instantiated twice:

    - at [float] (the kernel's binary64 numbers), where it runs and shows
      what the code returns on a concrete input, special values included;
    - at [R], where the algebraic statements ("up to rounding") are
      proved. *)

From Stdlib Require Import PrimFloat Uint63 SpecFloat FloatOps FloatAxioms.
From Stdlib Require Import Ascii String.
From Stdlib Require Import List ZArith Reals Lra Lia.
Import ListNotations.

Set Implicit Arguments.
#[local] Set Warnings "-inexact-float".

(** ** Numbers *)

(** The operations the source uses on its [np.float64] scalars. *)
Class Arith (F : Type) : Type := {
  of_Z   : Z -> F;          (* an integer count or literal, as a number *)
  add    : F -> F -> F;
  sub    : F -> F -> F;
  mul    : F -> F -> F;
  div    : F -> F -> F;     (* [np.true_divide]; never raises *)
  neg    : F -> F;
  fsqrt  : F -> F;          (* [np.sqrt] *)
}.

Declare Scope arith_scope.
Delimit Scope arith_scope with ar.
Infix "+" := add : arith_scope.
Infix "-" := sub : arith_scope.
Infix "*" := mul : arith_scope.
Infix "/" := div : arith_scope.
Notation "- x" := (neg x) : arith_scope.

(** [x ** n] for a literal exponent [n]. *)
Fixpoint power {F} `{Arith F} (x : F) (n : nat) : F :=
  match n with
  | O => of_Z 1
  | S O => x
  | S m => (x * power x m)%ar
  end.

#[export] Instance float_Arith : Arith float := {|
  of_Z   := fun z => match z with
                     | Z0 => PrimFloat.zero
                     | Zpos _ => PrimFloat.of_uint63 (Uint63.of_Z z)
                     | Zneg _ => PrimFloat.opp
                                   (PrimFloat.of_uint63 (Uint63.of_Z (Z.opp z)))
                     end;
  add    := PrimFloat.add;
  sub    := PrimFloat.sub;
  mul    := PrimFloat.mul;
  div    := PrimFloat.div;
  neg    := PrimFloat.opp;
  fsqrt  := PrimFloat.sqrt;
|}.

#[export] Instance R_Arith : Arith R := {|
  of_Z   := IZR;
  add    := Rplus;
  sub    := Rminus;
  mul    := Rmult;
  div    := Rdiv;
  neg    := Ropp;
  fsqrt  := sqrt;
|}.

(** ** Errors *)

(** The one exception the function can raise: [np.cov] stacks its two
    arguments with [np.concatenate], which rejects rows of different
    lengths. *)
Inductive exn : Type :=
| ValueError.

Definition result (A : Type) : Type := (exn + A)%type.

Definition ret {A} (a : A) : result A := inr a.
Definition raise {A} (e : exn) : result A := inl e.
Definition bind {A B} (m : result A) (k : A -> result B) : result B :=
  match m with
  | inl e => inl e
  | inr a => k a
  end.

Notation "x <- m ;; k" := (bind m (fun x => k))
  (at level 61, m at next level, right associativity).

(** ** The result dictionary *)

(** The value under the key ['hedge_effectiveness']. *)
Record HedgeEffectiveness (F : Type) : Type := {
  rsquared           : F;
  variance_reduction : F;
  var_reduction      : F;
}.

(** The returned dictionary; its keys are fixed, so it is a record. *)
Record HedgeStatistics (F : Type) : Type := {
  optimal_hedge_ratio : F;
  portfolio_variance  : F;
  correlation         : F;
  hedge_effectiveness : HedgeEffectiveness F;
  hedged_variance     : F;
  unhedged_variance   : F;
}.

(** The 2x2 array returned by [np.cov] for two one-dimensional inputs;
    [mIJ] is the entry [[I, J]]. *)
Record Matrix2 (F : Type) : Type := {
  m00 : F; m01 : F;
  m10 : F; m11 : F;
}.

(** ** NumPy routines and the calculator *)

Section Calculator.

Context {F : Type} `{Arith F}.

(** [scipy.stats.norm.ppf], the standard normal quantile function.  It is
    library code; the calculator only ever applies it to [0.95]. *)
Variable norm_ppf : F -> F.

Local Open Scope arith_scope.

(** [np.sum] over a one-dimensional array, accumulating from zero. *)
Definition np_sum (a : list F) : F := fold_left add a (of_Z 0).

(** Number of items of an array. *)
Definition count (a : list F) : Z := Z.of_nat (length a).

(** [np.mean]: the sum divided by the number of items. *)
Definition np_mean (a : list F) : F := np_sum a / of_Z (count a).

(** [arr - arrmean]. *)
Definition deviations (a : list F) : list F :=
  let arrmean := np_mean a in
  map (fun x => x - arrmean) a.

(** [np.var(a, ddof)]: the sum of the squared deviations from the mean,
    divided by [max(N - ddof, 0)]. *)
Definition np_var_ddof (ddof : Z) (a : list F) : F :=
  let x := deviations a in
  let x := map (fun d => d * d) x in
  let ret := np_sum x in
  let rcount := Z.max (count a - ddof) 0 in
  ret / of_Z rcount.

(** [np.var(a)]: [ddof] defaults to 0. *)
Definition np_var (a : list F) : F := np_var_ddof 0 a.

(** [np.std(a)]: the square root of [np.var(a)]. *)
Definition np_std (a : list F) : F := fsqrt (np_var a).

(** [np.dot] of two rows of equal length. *)
Definition np_dot (x y : list F) : F :=
  np_sum (map (fun p => fst p * snd p) (combine x y)).

(** [np.cov(m, y, ddof)] for one-dimensional [m] and [y].  The two rows
    are stacked (which raises [ValueError] when their lengths differ),
    centred on their means, multiplied together and scaled by
    [1 / fact], where [fact = N - ddof], replaced by [0.0] when it is not
    positive. *)
Definition np_cov_ddof (ddof : Z) (m y : list F) : result (Matrix2 F) :=
  if negb (Nat.eqb (length m) (length y)) then raise ValueError
  else
    let fact := (count m - ddof)%Z in
    let fact := if (fact <=? 0)%Z then of_Z 0 else of_Z fact in
    let X0 := deviations m in
    let X1 := deviations y in
    let scale := of_Z 1 / fact in
    ret {| m00 := np_dot X0 X0 * scale; m01 := np_dot X0 X1 * scale;
           m10 := np_dot X1 X0 * scale; m11 := np_dot X1 X1 * scale |}.

(** [np.cov(m, y)]: with [bias] and [ddof] left out, [ddof] is 1. *)
Definition np_cov (m y : list F) : result (Matrix2 F) := np_cov_ddof 1 m y.

(** The literal [0.95]. *)
Definition confidence_level : F := of_Z 95 / of_Z 100.

(** [calculate_optimal_hedge_ratio(hedged_returns, unhedged_returns)]. *)
Definition calculate_optimal_hedge_ratio
    (hedged_returns unhedged_returns : list F) : result (HedgeStatistics F) :=
  let hedged := hedged_returns in
  let unhedged := unhedged_returns in
  let var_hedged := np_var hedged in
  let var_unhedged := np_var unhedged in
  cov_matrix <- np_cov hedged unhedged ;;
  let covariance := m01 cov_matrix in
  let optimal_hedge_ratio := covariance / var_hedged in
  let portfolio_variance :=
    var_unhedged
    + (power optimal_hedge_ratio 2) * var_hedged
    - of_Z 2 * optimal_hedge_ratio * covariance in
  let correlation := covariance / (np_std hedged * np_std unhedged) in
  let hedge_effectiveness_rsquared := power correlation 2 in
  let variance_reduction :=
    (var_unhedged - portfolio_variance) / var_unhedged in
  let z_score := norm_ppf confidence_level in
  let var_unhedged_position := - z_score * fsqrt var_unhedged in
  let var_hedged_portfolio := - z_score * fsqrt portfolio_variance in
  let var_reduction :=
    (var_unhedged_position - var_hedged_portfolio) / var_unhedged_position in
  ret {| optimal_hedge_ratio := optimal_hedge_ratio;
         portfolio_variance := portfolio_variance;
         correlation := correlation;
         hedge_effectiveness :=
           {| rsquared := hedge_effectiveness_rsquared;
              variance_reduction := variance_reduction;
              var_reduction := var_reduction |};
         hedged_variance := var_hedged;
         unhedged_variance := var_unhedged |}.

End Calculator.

(** ** What the spec asks for *)

Section Population.

Context {F : Type} `{Arith F}.
Local Open Scope arith_scope.

(** Follows the spec's words, for comparison with [np_cov]: the covariance
    of the two series "using the same N divisor" as the variance, that is
    the mean of the products of the paired deviations. *)
Definition population_covariance (a b : list F) : F :=
  np_dot (deviations a) (deviations b) / of_Z (count a).

End Population.

(** An outcome that is an exception. *)
Definition raises {A} (m : result A) : Prop := exists e, m = inl e.

(** ** Binary64 instance *)

Module IEEE.

(** [scipy.stats.norm.ppf] is library code.  The calculator evaluates it
    at [0.95] only, where SciPy returns [1.6448536269514722]; this
    stand-in agrees with it there and is left undefined (NaN) elsewhere. *)
Definition norm_ppf (p : float) : float :=
  if (p =? 0.95)%float then 1.6448536269514722%float else nan.

Definition calculate (hedged unhedged : list float)
  : result (HedgeStatistics float) :=
  calculate_optimal_hedge_ratio norm_ppf hedged unhedged.

(** The spec's perfect-hedge scenario: [[1,2,3,4,5]]. *)
Definition ramp : list float := [1; 2; 3; 4; 5]%float.

(** The spec's constant-unhedged scenario:
    [hedged = [1,-1,1,-1,1]], [unhedged = [1,1,1,1,1]]. *)
Definition zigzag : list float := [1; -1; 1; -1; 1]%float.
Definition ones : list float := [1; 1; 1; 1; 1]%float.

(** What the calculator returns on [ramp], [ramp]. *)
Definition ramp_statistics : HedgeStatistics float :=
  {| optimal_hedge_ratio := 1.25%float;
     portfolio_variance := (-1.125)%float;
     correlation := 1.2499999999999998%float;
     hedge_effectiveness :=
       {| rsquared := 1.5624999999999996%float;
          variance_reduction := 1.5625%float;
          var_reduction := nan |};
     hedged_variance := 2%float;
     unhedged_variance := 2%float |}.

(** A record whose hedge statistics are all NaN. *)
Definition nan_statistics (var_hedged var_unhedged : float)
  : HedgeStatistics float :=
  {| optimal_hedge_ratio := nan;
     portfolio_variance := nan;
     correlation := nan;
     hedge_effectiveness :=
       {| rsquared := nan; variance_reduction := nan; var_reduction := nan |};
     hedged_variance := var_hedged;
     unhedged_variance := var_unhedged |}.

(** [x] is a NaN or an infinity. *)
Definition non_finite (x : float) : Prop :=
  x = nan \/ x = infinity \/ x = neg_infinity.

End IEEE.

(** ** Real-number instance *)

Module Exact.

(** The value SciPy returns for [norm.ppf(0.95)], as a real number. *)
Definition z_score_95 : R := 16448536269514722 / 10000000000000000.

Definition norm_ppf (_ : R) : R := z_score_95.

Definition calculate (hedged unhedged : list R)
  : result (HedgeStatistics R) :=
  calculate_optimal_hedge_ratio norm_ppf hedged unhedged.

Definition ramp : list R := [1; 2; 3; 4; 5]%R.

(** Two series of mean zero whose deviations are orthogonal. *)
Definition square_a : list R := [1; -1; 1; -1]%R.
Definition square_b : list R := [1; 1; -1; -1]%R.

(** A five-item series, neither constant nor a linear function of
    [ramp]. *)
Definition square_a_long : list R := [1; -1; 1; -1; 2]%R.

End Exact.

(** ** The demonstration driver *)

(** [x + y] on two one-dimensional arrays: elementwise when the lengths
    agree, with a one-item array broadcast against the other; any other
    pair of shapes raises [ValueError]. *)
Definition array_add {F} `{Arith F} (x y : list F) : result (list F) :=
  if Nat.eqb (length x) (length y)
  then ret (map (fun p => add (fst p) (snd p)) (combine x y))
  else match x, y with
       | [a], _ => ret (map (fun b => add a b) y)
       | _, [b] => ret (map (fun a => add a b) x)
       | _, _ => raise ValueError
       end.

Section ExampleRunner.

Context {F : Type} `{Arith F}.

(** [scipy.stats.norm.ppf], as for the calculator. *)
Variable norm_ppf : F -> F.

(** NumPy's global generator is library code: its state, the state
    [np.random.seed] installs, and [np.random.normal(loc, scale, size)],
    which draws [size] values and advances the state. *)
Variable rng : Type.
Variable seed : Z -> rng.
Variable normal : F -> F -> nat -> rng -> list F * rng.

(** The format specification [.Nf] of an f-string. *)
Variable fmt : nat -> F -> string.

(** What a run can touch outside its arguments: the global generator and
    the lines printed so far. *)
Record World : Type := {
  generator : rng;
  stdout    : list string;
}.

(** A statement: it may raise, and it leaves a world behind either way. *)
Definition IO (A : Type) : Type := World -> result A * World.

Definition io_ret {A} (a : A) : IO A := fun w => (inr a, w).

Definition io_bind {A B} (m : IO A) (k : A -> IO B) : IO B :=
  fun w =>
    match m w with
    | (inl e, w') => (inl e, w')
    | (inr a, w') => k a w'
    end.

Definition io_lift {A} (m : result A) : IO A := fun w => (m, w).

(** [np.random.seed(n)]. *)
Definition np_random_seed (n : Z) : IO unit :=
  fun w => (inr tt, {| generator := seed n; stdout := stdout w |}).

(** [np.random.normal(loc, scale, size)]. *)
Definition np_random_normal (loc scale : F) (size : nat) : IO (list F) :=
  fun w =>
    let (xs, g) := normal loc scale size (generator w) in
    (inr xs, {| generator := g; stdout := stdout w |}).

(** [print(line)]. *)
Definition print (line : string) : IO unit :=
  fun w => (inr tt, {| generator := generator w;
                       stdout := stdout w ++ [line] |}).

Notation "x <~ m ;; k" := (io_bind m (fun x => k))
  (at level 61, m at next level, right associativity).
Notation "m ;;; k" := (io_bind m (fun _ => k))
  (at level 61, right associativity).

(** The literals [0.0001], [0.01] and [0.005]; on binary64 each quotient
    is the literal itself. *)
Definition lit_0_0001 : F := div (of_Z 1) (of_Z 10000).
Definition lit_0_01 : F := div (of_Z 1) (of_Z 100).
Definition lit_0_005 : F := div (of_Z 5) (of_Z 1000).

(** The lines [example_usage] prints for a record. *)
Definition report (results : HedgeStatistics F) : list string :=
  [ ("Optimal Hedge Ratio: " ++ fmt 4 (optimal_hedge_ratio results))%string;
    ("Portfolio Variance: " ++ fmt 6 (portfolio_variance results))%string;
    ("Correlation: " ++ fmt 4 (correlation results))%string;
    String "010"%char "Hedge Effectiveness Measures:";
    ("R-squared: "
       ++ fmt 4 (rsquared (hedge_effectiveness results)))%string;
    ("Variance Reduction: "
       ++ fmt 4 (variance_reduction (hedge_effectiveness results)))%string;
    ("VaR Reduction: "
       ++ fmt 4 (var_reduction (hedge_effectiveness results)))%string ].

(** [example_usage()]. *)
Definition example_usage : IO (HedgeStatistics F) :=
  np_random_seed 42 ;;;
  let n_days := 252%nat in
  hedged_returns <~ np_random_normal lit_0_0001 lit_0_01 n_days ;;
  noise <~ np_random_normal (of_Z 0) lit_0_005 n_days ;;
  unhedged_returns <~ io_lift (array_add hedged_returns noise) ;;
  results <~ io_lift (calculate_optimal_hedge_ratio norm_ppf
                        hedged_returns unhedged_returns) ;;
  print ("Optimal Hedge Ratio: "
           ++ fmt 4 (optimal_hedge_ratio results))%string ;;;
  print ("Portfolio Variance: "
           ++ fmt 6 (portfolio_variance results))%string ;;;
  print ("Correlation: " ++ fmt 4 (correlation results))%string ;;;
  print (String "010"%char "Hedge Effectiveness Measures:") ;;;
  print ("R-squared: "
           ++ fmt 4 (rsquared (hedge_effectiveness results)))%string ;;;
  print ("Variance Reduction: "
           ++ fmt 4 (variance_reduction
                       (hedge_effectiveness results)))%string ;;;
  print ("VaR Reduction: "
           ++ fmt 4 (var_reduction (hedge_effectiveness results)))%string ;;;
  io_ret results.

(** The two series [example_usage] hands to the calculator, read off the
    generator: the first draw from the state seeded with 42, and that
    draw plus, item by item, the second draw from the state the first
    one left. *)
Definition first_draw : list F * rng :=
  normal lit_0_0001 lit_0_01 252 (seed 42).

Definition second_draw : list F * rng :=
  normal (of_Z 0) lit_0_005 252 (snd first_draw).

Definition drawn_hedged : list F := fst first_draw.

Definition drawn_unhedged : list F :=
  map (fun p => add (fst p) (snd p)) (combine drawn_hedged (fst second_draw)).

End ExampleRunner.

(** A stand-in generator over the reals whose state is a counter: the
    [i]-th value drawn in state [g] is [loc + scale * (g + i)], and the
    counter advances by the number of values drawn.  The formatter keeps
    only the number of decimals asked for. *)
Module Demo.

Definition seed (n : Z) : nat := Z.to_nat n.

Definition normal (loc scale : R) (size : nat) (g : nat) : list R * nat :=
  (map (fun i => (loc + scale * INR (g + i))%R) (seq 0 size),
   (g + size)%nat).

Definition fmt (decimals : nat) (_ : R) : string :=
  match decimals with
  | 4%nat => ".4f"%string
  | 6%nat => ".6f"%string
  | _ => EmptyString
  end.

End Demo.

(** Unfolds the NumPy routines on a literal series, leaving a closed
    expression over the reals. *)
Ltac exact_eval :=
  unfold Exact.calculate, Exact.ramp, Exact.square_a, Exact.square_b,
    calculate_optimal_hedge_ratio, np_cov, np_cov_ddof,
    population_covariance, np_std, np_var, np_var_ddof, np_dot,
    deviations, np_mean, np_sum, count;
  simpl;
  repeat match goal with
         | |- context [Z.max ?a ?b] =>
             let v := eval vm_compute in (Z.max a b) in
             change (Z.max a b) with v
         end.

Unset Implicit Arguments.

(** ** Outcome of a call, for any arithmetic *)

Section Outcome.

Context {F : Type} `{Arith F}.
Variable norm_ppf : F -> F.

Lemma np_cov_ddof_returns (ddof : Z) (m y : list F) :
  length m = length y -> exists c, np_cov_ddof ddof m y = inr c.
Proof.
  intros Hlen. unfold np_cov_ddof.
  rewrite Hlen, Nat.eqb_refl. simpl. eexists. reflexivity.
Qed.

Lemma np_cov_ddof_raises (ddof : Z) (m y : list F) :
  length m <> length y -> np_cov_ddof ddof m y = inl ValueError.
Proof.
  intros Hlen. unfold np_cov_ddof.
  apply Nat.eqb_neq in Hlen. rewrite Hlen. reflexivity.
Qed.

(** The calculator raises whatever [np.cov] raises and nothing else. *)
Lemma calculate_raises (h u : list F) (e : exn) :
  calculate_optimal_hedge_ratio norm_ppf h u = inl e <-> np_cov h u = inl e.
Proof.
  unfold calculate_optimal_hedge_ratio.
  destruct (np_cov h u) as [e' | c]; simpl; split; intros E;
    try discriminate; injection E as ->; reflexivity.
Qed.

(** On two series of one length both [np.cov] and the calculator
    return. *)
Lemma calculate_total (h u : list F) :
  length h = length u ->
  exists c r,
    np_cov h u = inr c /\
    calculate_optimal_hedge_ratio norm_ppf h u = inr r.
Proof.
  intros Hlen. destruct (np_cov_ddof_returns 1 h u Hlen) as [c Hc].
  exists c. unfold calculate_optimal_hedge_ratio.
  fold (np_cov h u) in Hc. rewrite Hc. simpl.
  eexists. split; reflexivity.
Qed.

(** The record returned once [np.cov] has returned [c]. *)
Lemma calculate_returns (h u : list F) (c : Matrix2 F) (r : HedgeStatistics F) :
  np_cov h u = inr c ->
  calculate_optimal_hedge_ratio norm_ppf h u = inr r ->
  let ratio := div (m01 c) (np_var h) in
  let pv := sub (add (np_var u) (mul (power ratio 2) (np_var h)))
                (mul (mul (of_Z 2) ratio) (m01 c)) in
  optimal_hedge_ratio r = ratio /\
  portfolio_variance r = pv /\
  correlation r = div (m01 c) (mul (np_std h) (np_std u)) /\
  rsquared (hedge_effectiveness r) = power (correlation r) 2 /\
  variance_reduction (hedge_effectiveness r)
    = div (sub (np_var u) pv) (np_var u) /\
  var_reduction (hedge_effectiveness r)
    = (let z := norm_ppf confidence_level in
       div (sub (mul (neg z) (fsqrt (np_var u))) (mul (neg z) (fsqrt pv)))
           (mul (neg z) (fsqrt (np_var u)))) /\
  hedged_variance r = np_var h /\
  unhedged_variance r = np_var u.
Proof.
  intros Hc Hr. unfold calculate_optimal_hedge_ratio in Hr.
  rewrite Hc in Hr. simpl in Hr. injection Hr as <-. simpl.
  repeat split.
Qed.

End Outcome.

(** ** Binary64: literals and division by a zero *)

(** The quotient standing for the literal [0.95] is that literal. *)
Lemma confidence_level_is_095 : (confidence_level : float) = 0.95%float.
Proof. vm_compute. reflexivity. Qed.

(** The stand-in for [norm.ppf] is defined where the calculator uses it. *)
Lemma z_score_is_norm_ppf_095 :
  IEEE.norm_ppf confidence_level = 1.6448536269514722%float.
Proof. vm_compute. reflexivity. Qed.

(** Dividing by a zero of either sign raises nothing: the quotient is a
    NaN or an infinity. *)
Lemma float_div_by_zero (x y : float) :
  (y =? 0)%float = true -> IEEE.non_finite (x / y)%float.
Proof.
  intros Hy. rewrite FloatAxioms.eqb_spec in Hy.
  assert (Hz : exists s, Prim2SF y = S754_zero s).
  { destruct (Prim2SF y) as [s | s | | s m e].
    - exists s; reflexivity.
    - destruct s; cbv in Hy; discriminate Hy.
    - cbv in Hy; discriminate Hy.
    - destruct s; cbv in Hy; discriminate Hy. }
  destruct Hz as [s Hz].
  unfold IEEE.non_finite.
  rewrite <- (SF2Prim_Prim2SF (x / y)%float), FloatAxioms.div_spec, Hz.
  destruct (Prim2SF x) as [sx | sx | | sx mx ex]; destruct s;
    try destruct sx; cbv; auto.
Qed.

(** A call that returned did not raise. *)
Lemma returned_not_raised {A} (m : result A) (a : A) :
  m = inr a -> ~ raises m.
Proof. intros -> [e He]. discriminate He. Qed.

(** ** Errors *)

(** C5, as amended.  The calculator validates nothing itself.  A call
    fails exactly when the two series differ in length, and then with the
    [ValueError] of [np.cov]; every pair of series of one length, empty or
    holding non-finite values included, gets a record back.  There is no
    confidence-level argument to reject. *)
Theorem calculate_raises_iff_lengths_differ
    (F : Type) (A : Arith F) (norm_ppf : F -> F) (h u : list F) :
  (calculate_optimal_hedge_ratio norm_ppf h u = inl ValueError
     <-> length h <> length u) /\
  ((exists r, calculate_optimal_hedge_ratio norm_ppf h u = inr r)
     <-> length h = length u).
Proof.
  destruct (Nat.eq_dec (length h) (length u)) as [Heq | Hne].
  - destruct (calculate_total norm_ppf h u Heq) as (c & r & _ & Hr).
    split; split; intros E; auto.
    + rewrite Hr in E. discriminate E.
    + contradiction.
    + exists r. exact Hr.
  - assert (He : calculate_optimal_hedge_ratio norm_ppf h u = inl ValueError).
    { apply calculate_raises. apply np_cov_ddof_raises. exact Hne. }
    split; split; intros E; auto.
    + destruct E as [r Hr]. rewrite Hr in He. discriminate He.
    + contradiction.
Qed.

(** C5, refuted as stated: on two empty series, and on a series holding
    an infinity, the calculator raises nothing and returns a record of
    NaNs. *)
Lemma invalid_inputs_return_records :
  IEEE.calculate [] [] = inr (IEEE.nan_statistics nan nan) /\
  ~ raises (IEEE.calculate [] []) /\
  IEEE.calculate [1; infinity]%float [1; 2]%float
    = inr (IEEE.nan_statistics nan 0.25) /\
  ~ raises (IEEE.calculate [1; infinity]%float [1; 2]%float).
Proof.
  assert (E1 : IEEE.calculate [] [] = inr (IEEE.nan_statistics nan nan))
    by (vm_compute; reflexivity).
  assert (E2 : IEEE.calculate [1; infinity]%float [1; 2]%float
               = inr (IEEE.nan_statistics nan 0.25))
    by (vm_compute; reflexivity).
  repeat split; try assumption; eapply returned_not_raised; eassumption.
Qed.

(** C3, as amended.  A variance that is zero stops nothing: for two
    series of one length the calculator returns a record, in which
    [optimal_hedge_ratio] is a NaN or an infinity when the hedged variance
    is zero, and [variance_reduction] is a NaN or an infinity when the
    unhedged variance is zero. *)
Theorem zero_variance_yields_non_finite
    (norm_ppf : float -> float) (h u : list float) :
  length h = length u ->
  exists r,
    calculate_optimal_hedge_ratio norm_ppf h u = inr r /\
    ((np_var h =? 0)%float = true ->
       IEEE.non_finite (optimal_hedge_ratio r)) /\
    ((np_var u =? 0)%float = true ->
       IEEE.non_finite (variance_reduction (hedge_effectiveness r))).
Proof.
  intros Hlen.
  destruct (calculate_total norm_ppf h u Hlen) as (c & r & Hc & Hr).
  exists r. split; [exact Hr |].
  destruct (calculate_returns norm_ppf h u c r Hc Hr)
    as (Hratio & _ & _ & _ & Hvr & _).
  split; intros Hz.
  - rewrite Hratio. apply float_div_by_zero. exact Hz.
  - rewrite Hvr. apply float_div_by_zero. exact Hz.
Qed.

(** A constant hedged series and a constant unhedged series, each with a
    variance of exactly zero. *)
Lemma zero_variance_yields_non_finite_witness :
  (np_var IEEE.ones =? 0)%float = true /\
  (exists r,
     IEEE.calculate IEEE.ones IEEE.ramp = inr r /\
     IEEE.non_finite (optimal_hedge_ratio r)) /\
  (exists r,
     IEEE.calculate IEEE.zigzag IEEE.ones = inr r /\
     IEEE.non_finite (variance_reduction (hedge_effectiveness r))).
Proof.
  assert (Hz : (np_var IEEE.ones =? 0)%float = true)
    by (vm_compute; reflexivity).
  split; [exact Hz |]. split.
  - destruct (zero_variance_yields_non_finite
                IEEE.norm_ppf IEEE.ones IEEE.ramp eq_refl)
      as (r & Hr & Hh & _).
    exists r. split; [exact Hr | exact (Hh Hz)].
  - destruct (zero_variance_yields_non_finite
                IEEE.norm_ppf IEEE.zigzag IEEE.ones eq_refl)
      as (r & Hr & _ & Hu).
    exists r. split; [exact Hr | exact (Hu Hz)].
Defined.

(** C3, refuted as stated: with a constant hedged series, and with the
    spec's constant unhedged series, nothing is raised; the record comes
    back with NaN where the division by zero happened. *)
Lemma constant_series_return_nan :
  IEEE.calculate IEEE.ones IEEE.ramp = inr (IEEE.nan_statistics 0 2) /\
  ~ raises (IEEE.calculate IEEE.ones IEEE.ramp) /\
  (exists r,
     IEEE.calculate IEEE.zigzag IEEE.ones = inr r /\
     unhedged_variance r = 0%float /\
     variance_reduction (hedge_effectiveness r) = nan) /\
  ~ raises (IEEE.calculate IEEE.zigzag IEEE.ones).
Proof.
  assert (E1 : IEEE.calculate IEEE.ones IEEE.ramp
               = inr (IEEE.nan_statistics 0 2))
    by (vm_compute; reflexivity).
  assert (E2 : exists r,
     IEEE.calculate IEEE.zigzag IEEE.ones = inr r /\
     unhedged_variance r = 0%float /\
     variance_reduction (hedge_effectiveness r) = nan).
  { eexists. split; [vm_compute; reflexivity |].
    split; vm_compute; reflexivity. }
  split; [exact E1 |]. split; [exact (returned_not_raised _ _ E1) |].
  split; [exact E2 |]. destruct E2 as [r [E2 _]].
  exact (returned_not_raised _ _ E2).
Qed.

(** ** The divisor of the covariance *)

(** C1: the code breaks the claim at [hedged = unhedged = [1,2,3,4,5]].
    The squared deviations sum to 10.  [np.var] divides by N = 5 and
    gives 2; [np.cov] divides by N - 1 = 4 and gives 2.5, where the
    covariance with divisor N is 2. *)
Theorem covariance_divides_by_N_minus_1 :
  np_dot (deviations IEEE.ramp) (deviations IEEE.ramp) = 10%float /\
  np_var IEEE.ramp = 2%float /\
  (exists c, np_cov IEEE.ramp IEEE.ramp = inr c /\ m01 c = 2.5%float) /\
  population_covariance IEEE.ramp IEEE.ramp = 2%float.
Proof.
  split; [vm_compute; reflexivity |].
  split; [vm_compute; reflexivity |].
  split; [| vm_compute; reflexivity].
  eexists. split; vm_compute; reflexivity.
Qed.

(** ** The perfect hedge *)

(** C4: the code breaks the claim at [hedged = unhedged = [1,2,3,4,5]].
    The hedge ratio is 1.25, the correlation 1.2499999999999998, the
    R-squared 1.5624999999999996, the portfolio variance -1.125 and the
    variance reduction 1.5625; the VaR reduction is NaN. *)
Theorem perfect_hedge_statistics :
  IEEE.calculate IEEE.ramp IEEE.ramp = inr IEEE.ramp_statistics.
Proof. vm_compute. reflexivity. Qed.

(** C2: the code breaks the claim at [hedged = unhedged = [1,2,3,4,5]]:
    the correlation it returns is 1.2499999999999998, above 1 + 1e-9. *)
Theorem correlation_above_one :
  exists r,
    IEEE.calculate IEEE.ramp IEEE.ramp = inr r /\
    correlation r = 1.2499999999999998%float /\
    (1 + 1e-9 <? correlation r)%float = true.
Proof.
  eexists. split; [vm_compute; reflexivity |].
  split; vm_compute; reflexivity.
Qed.

(** C6, refuted as stated: at [hedged = unhedged = [1,2,3,4,5]] the
    portfolio variance is -1.125, far below zero, and the call returns an
    ordinary record. *)
Lemma portfolio_variance_negative :
  exists r,
    IEEE.calculate IEEE.ramp IEEE.ramp = inr r /\
    portfolio_variance r = (-1.125)%float /\
    (portfolio_variance r <? - 1e-9)%float = true.
Proof.
  eexists. split; [vm_compute; reflexivity |].
  split; vm_compute; reflexivity.
Qed.

(** ** R-squared *)

(** C9: in every record the calculator returns, under either arithmetic,
    [rsquared] is [correlation] multiplied by itself. *)
Theorem rsquared_is_correlation_squared
    (F : Type) (A : Arith F) (norm_ppf : F -> F) (h u : list F)
    (r : HedgeStatistics F) :
  calculate_optimal_hedge_ratio norm_ppf h u = inr r ->
  rsquared (hedge_effectiveness r) = mul (correlation r) (correlation r).
Proof.
  intros Hr.
  destruct (np_cov h u) as [e | c] eqn:Hc.
  - apply (calculate_raises norm_ppf) in Hc. rewrite Hc in Hr.
    discriminate Hr.
  - destruct (calculate_returns norm_ppf h u c r Hc Hr)
      as (_ & _ & _ & Hrsq & _).
    rewrite Hrsq. reflexivity.
Qed.

Lemma rsquared_is_correlation_squared_witness :
  rsquared (hedge_effectiveness IEEE.ramp_statistics)
  = (correlation IEEE.ramp_statistics
     * correlation IEEE.ramp_statistics)%float.
Proof.
  apply (rsquared_is_correlation_squared
           float float_Arith IEEE.norm_ppf IEEE.ramp IEEE.ramp).
  vm_compute. reflexivity.
Defined.

(** ** Real arithmetic: sums and variances *)

Local Open Scope R_scope.

Lemma fold_left_Rplus_acc (l : list R) (a : R) :
  fold_left Rplus l a = a + fold_left Rplus l 0.
Proof.
  revert a. induction l as [| x l IH]; intros a; simpl.
  - lra.
  - rewrite (IH (a + x)), (IH (0 + x)). lra.
Qed.

Lemma np_sum_cons (x : R) (l : list R) :
  np_sum (x :: l) = x + np_sum l.
Proof.
  unfold np_sum. simpl. rewrite fold_left_Rplus_acc. lra.
Qed.

Lemma np_sum_squares_nonneg (l : list R) :
  0 <= np_sum (map (fun d => mul d d) l).
Proof.
  induction l as [| x l IH].
  - unfold np_sum. simpl. lra.
  - simpl map. rewrite np_sum_cons. simpl in IH |- *. nra.
Qed.

(** A quotient of non-negative reals is non-negative, also when the
    divisor is zero. *)
Lemma Rdiv_nonneg (x y : R) : 0 <= x -> 0 <= y -> 0 <= x / y.
Proof.
  intros Hx Hy. destruct (Req_dec y 0) as [-> | Hne].
  - unfold Rdiv. rewrite Rinv_0. lra.
  - apply Rmult_le_pos; [exact Hx |].
    apply Rlt_le, Rinv_0_lt_compat. lra.
Qed.

Lemma np_var_nonneg (a : list R) : 0 <= np_var a.
Proof.
  unfold np_var, np_var_ddof. simpl.
  apply Rdiv_nonneg.
  - apply np_sum_squares_nonneg.
  - apply IZR_le. apply Z.le_max_r.
Qed.

(** With two observations or more, [np.cov] returns the covariance with
    divisor N scaled by N / (N - 1). *)
Lemma np_cov_rescales_population_covariance (h u : list R) :
  length h = length u -> (2 <= length h)%nat ->
  exists c,
    np_cov h u = inr c /\
    m01 c = IZR (count h) / IZR (count h - 1) * population_covariance h u.
Proof.
  intros Hlen Hn. unfold np_cov, np_cov_ddof, population_covariance.
  rewrite Hlen, Nat.eqb_refl. simpl negb. cbv iota.
  eexists. split; [reflexivity |]. simpl m01.
  assert (Hc : (2 <= count h)%Z) by (unfold count; lia).
  destruct (Z.leb_spec (count h - 1) 0) as [Hle | Hgt]; [lia |].
  simpl. 
  assert (H1 : IZR (count h - 1) <> 0) by (apply not_0_IZR; lia).
  assert (H2 : IZR (count h) <> 0) by (apply not_0_IZR; lia).
  field. split; assumption.
Qed.

(** ** The portfolio variance *)




(** C6, as amended.  For two series of one length the calculator returns
    [portfolio_variance] exactly as the formula
    [var_u + ratio^2 * var_h - 2 * ratio * covariance] gives it, with
    nothing clamped; when the hedged variance is not zero this is
    [var_u - covariance^2 / var_h].  The record has no field for an
    anomaly. *)
Theorem portfolio_variance_is_unclamped
    (norm_ppf : R -> R) (h u : list R) :
  length h = length u ->
  exists r c,
    calculate_optimal_hedge_ratio norm_ppf h u = inr r /\
    np_cov h u = inr c /\
    portfolio_variance r
      = unhedged_variance r
        + optimal_hedge_ratio r * optimal_hedge_ratio r * hedged_variance r
        - 2 * optimal_hedge_ratio r * m01 c /\
    (hedged_variance r <> 0 ->
     portfolio_variance r
       = unhedged_variance r - m01 c * m01 c / hedged_variance r).
Proof.
  intros Hlen.
  destruct (calculate_total norm_ppf h u Hlen) as (c & r & Hc & Hr).
  exists r, c. split; [exact Hr |]. split; [exact Hc |].
  destruct (calculate_returns norm_ppf h u c r Hc Hr)
    as (Hratio & Hpv & _ & _ & _ & _ & Hhv & Huv).
  rewrite Hpv, Hratio, Hhv, Huv.
  generalize (np_var h) (np_var u) (m01 c). intros vh vu cv.
  simpl. split; [reflexivity |].
  intros Hvh. field. exact Hvh.
Qed.

Lemma portfolio_variance_is_unclamped_witness :
  exists r c,
    Exact.calculate Exact.ramp Exact.ramp = inr r /\
    np_cov Exact.ramp Exact.ramp = inr c /\
    portfolio_variance r
      = unhedged_variance r
        + optimal_hedge_ratio r * optimal_hedge_ratio r * hedged_variance r
        - 2 * optimal_hedge_ratio r * m01 c /\
    (hedged_variance r <> 0 ->
     portfolio_variance r
       = unhedged_variance r - m01 c * m01 c / hedged_variance r).
Proof.
  apply (portfolio_variance_is_unclamped
           Exact.norm_ppf Exact.ramp Exact.ramp).
  reflexivity.
Defined.

(** ** The VaR reduction *)

(** C10: whatever non-zero value the normal quantile takes, in a returned
    record whose [unhedged_variance] is positive and whose
    [portfolio_variance] is not negative, [var_reduction] is
    [1 - sqrt (portfolio_variance / unhedged_variance)]. *)
Theorem var_reduction_closed_form
    (norm_ppf : R -> R) (h u : list R) (r : HedgeStatistics R) :
  calculate_optimal_hedge_ratio norm_ppf h u = inr r ->
  norm_ppf confidence_level <> 0 ->
  0 < unhedged_variance r ->
  0 <= portfolio_variance r ->
  var_reduction (hedge_effectiveness r)
  = 1 - sqrt (portfolio_variance r / unhedged_variance r).
Proof.
  intros Hr Hz Hu Hp.
  destruct (np_cov h u) as [e | c] eqn:Hc.
  - apply (calculate_raises norm_ppf) in Hc. rewrite Hc in Hr.
    discriminate Hr.
  - destruct (calculate_returns norm_ppf h u c r Hc Hr)
      as (_ & Hpv & _ & _ & _ & Hvar & _ & Huv).
    rewrite Hvar. rewrite <- Hpv, <- Huv.
    revert Hz Hu Hp.
    generalize (norm_ppf confidence_level) (unhedged_variance r)
               (portfolio_variance r).
    intros z vu pv Hz Hu Hp. simpl.
    rewrite (sqrt_div_alt pv vu Hu).
    assert (Hs : sqrt vu <> 0).
    { pose proof (sqrt_lt_R0 vu Hu). lra. }
    field. split; assumption.
Qed.

Lemma var_reduction_closed_form_witness :
  exists r,
    Exact.calculate Exact.square_a Exact.square_b = inr r /\
    var_reduction (hedge_effectiveness r)
    = 1 - sqrt (portfolio_variance r / unhedged_variance r).
Proof.
  eexists. split; [reflexivity |].
  apply (var_reduction_closed_form
           Exact.norm_ppf Exact.square_a Exact.square_b).
  - reflexivity.
  - unfold Exact.norm_ppf, Exact.z_score_95. lra.
  - exact_eval. lra.
  - exact_eval. lra.
Defined.

(** ** Identical series, in exact arithmetic *)

Lemma np_dot_self (l : list R) :
  np_dot l l = np_sum (map (fun d => mul d d) l).
Proof.
  unfold np_dot. f_equal.
  induction l as [| x l IH]; simpl; [reflexivity |].
  f_equal. exact IH.
Qed.

(** Hedging a series with itself: the ratio the calculator returns is
    N / (N - 1), not 1, for every series of two observations or more
    whose variance is not zero. *)
Lemma identical_series_hedge_ratio (norm_ppf : R -> R) (h : list R) :
  (2 <= length h)%nat ->
  np_var h <> 0 ->
  exists r,
    calculate_optimal_hedge_ratio norm_ppf h h = inr r /\
    optimal_hedge_ratio r = IZR (count h) / IZR (count h - 1).
Proof.
  intros Hn Hv.
  destruct (np_cov_rescales_population_covariance h h eq_refl Hn)
    as (c & Hc & Hm).
  destruct (calculate_total norm_ppf h h eq_refl) as (c' & r & Hc' & Hr).
  rewrite Hc in Hc'. injection Hc' as <-.
  exists r. split; [exact Hr |].
  destruct (calculate_returns norm_ppf h h c r Hc Hr) as (Hratio & _).
  rewrite Hratio, Hm.
  assert (Hp : population_covariance h h = np_var h).
  { unfold population_covariance, np_var, np_var_ddof.
    rewrite np_dot_self, Z.sub_0_r, Z.max_l; [reflexivity |].
    unfold count. lia. }
  rewrite Hp.
  assert (Hc1 : IZR (count h - 1) <> 0)
    by (apply not_0_IZR; unfold count; lia).
  revert Hv Hc1.
  generalize (np_var h) (IZR (count h)) (IZR (count h - 1)).
  intros v n n1 Hv Hn1. simpl. field. split; assumption.
Qed.

(** On [[1,2,3,4,5]] against itself the excess is not a rounding
    effect: over the reals the hedge ratio and the correlation are 5/4
    and the portfolio variance is -9/8. *)
Lemma exact_perfect_hedge :
  exists r,
    Exact.calculate Exact.ramp Exact.ramp = inr r /\
    optimal_hedge_ratio r = 5 / 4 /\
    portfolio_variance r = - 9 / 8 /\
    correlation r = 5 / 4 /\
    rsquared (hedge_effectiveness r) = 25 / 16 /\
    variance_reduction (hedge_effectiveness r) = 25 / 16.
Proof.
  eexists. split; [reflexivity |].
  assert (Hcorr : forall x y z : R, x = 5 / 2 -> y = 2 -> z = 2 ->
                    x / (sqrt y * sqrt z) = 5 / 4).
  { intros x y z -> -> ->. rewrite sqrt_sqrt by lra. lra. }
  repeat split.
  - exact_eval. lra.
  - exact_eval. lra.
  - exact_eval. apply Hcorr; lra.
  - exact_eval.
    match goal with
    | |- ?a * ?a = _ => assert (Ha : a = 5 / 4) by (apply Hcorr; lra)
    end.
    rewrite Ha. lra.
  - exact_eval. lra.
Qed.

(** ** The demonstration driver never fails *)

Lemma array_add_same_length {F} `{Arith F} (x y : list F) :
  length x = length y ->
  exists z, array_add x y = inr z /\ length z = length x.
Proof.
  intros Hlen. unfold array_add. rewrite Hlen, Nat.eqb_refl.
  eexists. split; [reflexivity |].
  rewrite length_map, length_combine, Hlen. apply Nat.min_id.
Qed.

(** The quotients standing for the driver's literals are those
    literals. *)
Lemma driver_literals :
  (lit_0_0001 : float) = 0.0001%float /\
  (lit_0_01 : float) = 0.01%float /\
  (lit_0_005 : float) = 0.005%float.
Proof. repeat split; vm_compute; reflexivity. Qed.

(** X1.  Under either arithmetic and whatever the generator draws, as
    long as [np.random.normal(loc, scale, size)] returns [size] values,
    [example_usage] raises nothing.  It hands the calculator the first
    draw of 252 values from the state seeded with 42 as the hedged
    series and that draw plus the second draw as the unhedged series;
    the calculator returns a record on them, and the run returns this
    very record, appends to the output the seven lines that report it and
    leaves the generator in the state after the second draw.  Nothing in
    the outcome depends on the state the generator was in before the
    call. *)
Theorem example_usage_returns
    (F : Type) (A : Arith F) (norm_ppf : F -> F)
    (rng : Type) (seed : Z -> rng)
    (normal : F -> F -> nat -> rng -> list F * rng)
    (fmt : nat -> F -> string) :
  (forall loc scale size g,
     length (fst (normal loc scale size g)) = size) ->
  exists r,
    calculate_optimal_hedge_ratio norm_ppf
      (drawn_hedged seed normal) (drawn_unhedged seed normal) = inr r /\
    length (drawn_hedged seed normal) = 252%nat /\
    length (drawn_unhedged seed normal) = 252%nat /\
    forall w : World rng,
      example_usage norm_ppf seed normal fmt w
      = (inr r,
         {| generator := snd (second_draw seed normal);
            stdout := (stdout w ++ report fmt r)%list |}).
Proof.
  intros Hsize.
  unfold drawn_unhedged, drawn_hedged, second_draw, first_draw.
  pose proof (Hsize lit_0_0001 lit_0_01 252%nat (seed 42%Z)) as Hh.
  destruct (normal lit_0_0001 lit_0_01 252%nat (seed 42%Z))
    as [hedged g1] eqn:E1.
  cbn [fst snd] in *.
  pose proof (Hsize (of_Z 0) lit_0_005 252%nat g1) as Hn.
  destruct (normal (of_Z 0) lit_0_005 252%nat g1) as [noise g2] eqn:E2.
  cbn [fst snd] in *.
  destruct (array_add_same_length hedged noise) as (unhedged & Ha & Hu);
    [congruence |].
  assert (Eu : unhedged
               = map (fun p => add (fst p) (snd p)) (combine hedged noise)).
  { unfold array_add in Ha.
    replace (length noise) with (length hedged) in Ha by congruence.
    rewrite Nat.eqb_refl in Ha. injection Ha as <-. reflexivity. }
  rewrite <- Eu.
  destruct (calculate_total norm_ppf hedged unhedged)
    as (c & r & _ & Hr); [congruence |].
  exists r. split; [exact Hr |]. split; [exact Hh |].
  split; [congruence |].
  intros w.
  unfold example_usage, io_bind, np_random_seed, np_random_normal,
    io_lift, print, io_ret.
  cbn [generator stdout]. rewrite E1. cbn [generator stdout].
  rewrite E2, Ha, Hr. cbn [generator stdout].
  unfold report. repeat rewrite <- app_assoc. reflexivity.
Qed.

Lemma example_usage_returns_witness :
  exists r,
    calculate_optimal_hedge_ratio Exact.norm_ppf
      (drawn_hedged Demo.seed Demo.normal)
      (drawn_unhedged Demo.seed Demo.normal) = inr r /\
    length (drawn_hedged Demo.seed Demo.normal) = 252%nat /\
    length (drawn_unhedged Demo.seed Demo.normal) = 252%nat /\
    forall w : World nat,
      example_usage Exact.norm_ppf Demo.seed Demo.normal Demo.fmt w
      = (inr r,
         {| generator := snd (second_draw Demo.seed Demo.normal);
            stdout := (stdout w ++ report Demo.fmt r)%list |}).
Proof.
  apply (example_usage_returns
           R R_Arith Exact.norm_ppf nat Demo.seed Demo.normal Demo.fmt).
  intros loc scale size g. unfold Demo.normal. cbn [fst].
  rewrite length_map. apply length_seq.
Defined.

(** ** Fewer than two observations *)

Lemma float_mul_infinity (x : float) : IEEE.non_finite (x * infinity)%float.
Proof.
  unfold IEEE.non_finite.
  rewrite <- (SF2Prim_Prim2SF (x * infinity)%float), FloatAxioms.mul_spec.
  destruct (Prim2SF x) as [sx | sx | | sx mx ex];
    try destruct sx; cbv; auto.
Qed.

Lemma float_div_non_finite (x y : float) :
  IEEE.non_finite x -> IEEE.non_finite (x / y)%float.
Proof.
  unfold IEEE.non_finite.
  rewrite <- (SF2Prim_Prim2SF (x / y)%float), FloatAxioms.div_spec.
  intros [-> | [-> | ->]];
    destruct (Prim2SF y) as [sy | sy | | sy my ey];
    try destruct sy; cbv; auto.
Qed.

Lemma float_square_non_finite (x : float) :
  IEEE.non_finite x -> IEEE.non_finite (x * x)%float.
Proof.
  unfold IEEE.non_finite. intros [-> | [-> | ->]]; cbv; auto.
Qed.

(** X2.  With fewer than two observations in each series the scale
    [1 / fact] of [np.cov] is an infinity, so whatever the values are the
    calculator returns a record whose [optimal_hedge_ratio],
    [correlation] and [rsquared] are each a NaN or an infinity. *)
Theorem too_few_observations_non_finite
    (norm_ppf : float -> float) (h u : list float) :
  length h = length u ->
  (length h <= 1)%nat ->
  exists r,
    calculate_optimal_hedge_ratio norm_ppf h u = inr r /\
    IEEE.non_finite (optimal_hedge_ratio r) /\
    IEEE.non_finite (correlation r) /\
    IEEE.non_finite (rsquared (hedge_effectiveness r)).
Proof.
  intros Hlen Hn.
  destruct (calculate_total norm_ppf h u Hlen) as (c & r & Hc & Hr).
  exists r. split; [exact Hr |].
  destruct (calculate_returns norm_ppf h u c r Hc Hr)
    as (Hratio & _ & Hcorr & Hrsq & _).
  assert (Hm : IEEE.non_finite (m01 c)).
  { unfold np_cov, np_cov_ddof in Hc.
    rewrite Hlen, Nat.eqb_refl in Hc. cbn [negb] in Hc.
    assert (Hf : (count h - 1 <=? 0)%Z = true)
      by (apply Z.leb_le; unfold count; lia).
    rewrite Hf in Hc. injection Hc as <-. cbn [m01].
    change (mul (np_dot (deviations h) (deviations u))
                (div (of_Z 1) (of_Z 0)))
      with (np_dot (deviations h) (deviations u) * infinity)%float.
    apply float_mul_infinity. }
  assert (Hcr : IEEE.non_finite (correlation r)).
  { rewrite Hcorr. apply float_div_non_finite. exact Hm. }
  split; [rewrite Hratio; apply float_div_non_finite; exact Hm |].
  split; [exact Hcr |].
  rewrite Hrsq. apply float_square_non_finite. exact Hcr.
Qed.

Lemma too_few_observations_non_finite_witness :
  exists r,
    IEEE.calculate [3]%float [7]%float = inr r /\
    IEEE.non_finite (optimal_hedge_ratio r) /\
    IEEE.non_finite (correlation r) /\
    IEEE.non_finite (rsquared (hedge_effectiveness r)).
Proof.
  apply (too_few_observations_non_finite
           IEEE.norm_ppf [3]%float [7]%float).
  - reflexivity.
  - simpl. lia.
Defined.

(** ** Real arithmetic: sums, deviations and products of series *)

Lemma np_sum_nil : np_sum (@nil R) = 0.
Proof. reflexivity. Qed.

Lemma count_nonneg (l : list R) : (0 <= count l)%Z.
Proof. unfold count. lia. Qed.

Lemma count_cons (x : R) (l : list R) : count (x :: l) = (count l + 1)%Z.
Proof. unfold count. simpl length. lia. Qed.

Lemma count_map (f : R -> R) (l : list R) : count (map f l) = count l.
Proof. unfold count. rewrite length_map. reflexivity. Qed.

Lemma np_sum_map_scale (k : R) (l : list R) :
  np_sum (map (fun x => k * x) l) = k * np_sum l.
Proof.
  induction l as [| x l IH]; simpl map.
  - rewrite np_sum_nil. lra.
  - rewrite !np_sum_cons, IH. lra.
Qed.

Lemma np_sum_map_shift (a : R) (l : list R) :
  np_sum (map (fun x => x + a) l) = np_sum l + IZR (count l) * a.
Proof.
  induction l as [| x l IH]; simpl map.
  - rewrite np_sum_nil. unfold count. simpl. lra.
  - rewrite !np_sum_cons, IH, count_cons, plus_IZR. lra.
Qed.

(** Adding a constant to every item leaves the deviations as they are. *)
Lemma deviations_shift (a : R) (l : list R) :
  deviations (map (fun x => x + a) l) = deviations l.
Proof.
  destruct l as [| x0 l0]; [reflexivity |].
  set (l := x0 :: l0).
  assert (HN : IZR (count l) <> 0).
  { apply not_0_IZR. unfold l. rewrite count_cons.
    pose proof (count_nonneg l0). lia. }
  unfold deviations, np_mean.
  rewrite map_map, count_map, np_sum_map_shift.
  apply map_ext. intros x. simpl. field. exact HN.
Qed.

(** Multiplying every item by [k] multiplies the deviations by [k]. *)
Lemma deviations_scale (k : R) (l : list R) :
  deviations (map (fun x => k * x) l)
  = map (fun d => k * d) (deviations l).
Proof.
  unfold deviations, np_mean.
  rewrite !map_map, count_map, np_sum_map_scale.
  apply map_ext. intros x. simpl. unfold Rdiv. lra.
Qed.

Lemma np_dot_nil_l (y : list R) : np_dot [] y = 0.
Proof. reflexivity. Qed.

Lemma np_dot_nil_r (x : list R) : np_dot x [] = 0.
Proof. destruct x; reflexivity. Qed.

Lemma np_dot_cons (a b : R) (x y : list R) :
  np_dot (a :: x) (b :: y) = a * b + np_dot x y.
Proof. unfold np_dot. simpl map. rewrite np_sum_cons. reflexivity. Qed.

Lemma np_dot_comm (x y : list R) : np_dot x y = np_dot y x.
Proof.
  revert y. induction x as [| a x IH]; intros [| b y].
  - reflexivity.
  - reflexivity.
  - reflexivity.
  - rewrite !np_dot_cons, IH. lra.
Qed.

Lemma np_dot_scale_l (k : R) (x y : list R) :
  np_dot (map (fun d => k * d) x) y = k * np_dot x y.
Proof.
  revert y. induction x as [| a x IH]; intros [| b y]; simpl map.
  - rewrite np_dot_nil_l. lra.
  - rewrite np_dot_nil_l. lra.
  - rewrite !np_dot_nil_r. lra.
  - rewrite !np_dot_cons, IH. lra.
Qed.

Lemma np_dot_scale_r (k : R) (x y : list R) :
  np_dot x (map (fun d => k * d) y) = k * np_dot x y.
Proof.
  rewrite np_dot_comm, np_dot_scale_l, np_dot_comm. reflexivity.
Qed.

Lemma np_dot_self_nonneg (x : list R) : 0 <= np_dot x x.
Proof. rewrite np_dot_self. apply np_sum_squares_nonneg. Qed.

(** The Cauchy-Schwarz inequality for [np.dot]. *)
Lemma np_dot_cauchy_schwarz (x y : list R) :
  np_dot x y * np_dot x y <= np_dot x x * np_dot y y.
Proof.
  revert y. induction x as [| a x IH]; intros [| b y].
  - rewrite !np_dot_nil_l. lra.
  - rewrite !np_dot_nil_l. lra.
  - rewrite !np_dot_nil_r. lra.
  - rewrite !np_dot_cons.
    pose proof (IH y) as Hxy.
    pose proof (np_dot_self_nonneg x) as HA.
    pose proof (np_dot_self_nonneg y) as HB.
    revert Hxy HA HB.
    generalize (np_dot x y) (np_dot x x) (np_dot y y).
    intros D A B Hxy HA HB.
    assert (Hmix : 2 * (a * b) * D <= a * a * B + b * b * A).
    { assert (HY : 0 <= a * a * B + b * b * A).
      { pose proof (Rle_0_sqr a). pose proof (Rle_0_sqr b).
        unfold Rsqr in *. nra. }
      assert (Hsq : (2 * (a * b) * D) * (2 * (a * b) * D)
                    <= (a * a * B + b * b * A) * (a * a * B + b * b * A)).
      { assert (H4 : 4 * (a * a * b * b) * (D * D)
                     <= 4 * (a * a * b * b) * (A * B)).
        { apply Rmult_le_compat_l; [| exact Hxy].
          pose proof (Rle_0_sqr (a * b)). unfold Rsqr in *. lra. }
        pose proof (Rle_0_sqr (a * a * B - b * b * A)) as Hd.
        unfold Rsqr in Hd. lra. }
      apply Rnot_lt_le. intros Hlt.
      assert (Hpos : 0 <= 2 * (a * b) * D) by lra.
      pose proof (Rmult_le_0_lt_compat _ _ _ _ HY HY Hlt Hlt). lra. }
    lra.
Qed.

(** [np.var] is the product of the deviations with themselves over N. *)
Lemma np_var_as_dot (a : list R) :
  np_var a = np_dot (deviations a) (deviations a) / IZR (count a).
Proof.
  unfold np_var, np_var_ddof.
  rewrite np_dot_self, Z.sub_0_r, Z.max_l by apply count_nonneg.
  reflexivity.
Qed.

(** With two observations or more, the covariance the calculator uses is
    the product of the deviations over N - 1. *)
Lemma np_cov_m01 (h u : list R) (c : Matrix2 R) :
  np_cov h u = inr c ->
  (2 <= length h)%nat ->
  m01 c = np_dot (deviations h) (deviations u) / IZR (count h - 1).
Proof.
  intros Hc Hn. unfold np_cov, np_cov_ddof in Hc.
  destruct (negb (Nat.eqb (length h) (length u))); [discriminate Hc |].
  destruct (Z.leb_spec (count h - 1) 0) as [Hle | Hgt];
    [unfold count in Hle; lia |].
  injection Hc as <-. simpl. unfold Rdiv. lra.
Qed.

(** ** Changing the origin and the unit of the returns *)

(** X3.  In exact arithmetic the calculator depends on the two series
    only through their deviations from the mean: adding one constant to
    every hedged return and another to every unhedged return changes
    nothing in the outcome. *)
Theorem calculate_shift_invariant
    (norm_ppf : R -> R) (a b : R) (h u : list R) :
  calculate_optimal_hedge_ratio norm_ppf
    (map (fun x => x + a) h) (map (fun x => x + b) u)
  = calculate_optimal_hedge_ratio norm_ppf h u.
Proof.
  unfold calculate_optimal_hedge_ratio, np_cov, np_cov_ddof, np_std,
    np_var, np_var_ddof.
  rewrite !deviations_shift, !count_map, !length_map. reflexivity.
Qed.

Lemma np_var_scale (k : R) (l : list R) :
  np_var (map (fun x => k * x) l) = k * k * np_var l.
Proof.
  rewrite !np_var_as_dot, deviations_scale, count_map.
  rewrite np_dot_scale_l, np_dot_scale_r. unfold Rdiv. lra.
Qed.

Lemma np_cov_scale (j k : R) (h u : list R) (c c' : Matrix2 R) :
  np_cov h u = inr c ->
  np_cov (map (fun x => j * x) h) (map (fun x => k * x) u) = inr c' ->
  m01 c' = j * k * m01 c.
Proof.
  unfold np_cov, np_cov_ddof. rewrite !length_map, count_map.
  destruct (negb (Nat.eqb (length h) (length u))); [discriminate |].
  intros Hc Hc'. injection Hc as <-. injection Hc' as <-. cbn [m01].
  rewrite !deviations_scale, np_dot_scale_l, np_dot_scale_r.
  simpl. lra.
Qed.

(** X4.  In exact arithmetic, quoting the hedged returns in a unit [j]
    times smaller and the unhedged returns in a unit [k] times smaller
    multiplies the hedge ratio by [k / j] and the portfolio variance by
    [k * k]. *)
Theorem calculate_rescaled
    (norm_ppf : R -> R) (j k : R) (h u : list R) :
  length h = length u ->
  j <> 0 ->
  np_var h <> 0 ->
  exists r r',
    calculate_optimal_hedge_ratio norm_ppf h u = inr r /\
    calculate_optimal_hedge_ratio norm_ppf
      (map (fun x => j * x) h) (map (fun x => k * x) u) = inr r' /\
    optimal_hedge_ratio r' = k / j * optimal_hedge_ratio r /\
    portfolio_variance r' = k * k * portfolio_variance r /\
    hedged_variance r' = j * j * hedged_variance r /\
    unhedged_variance r' = k * k * unhedged_variance r.
Proof.
  intros Hlen Hj Hv.
  destruct (calculate_total norm_ppf h u Hlen) as (c & r & Hc & Hr).
  destruct (calculate_returns norm_ppf h u c r Hc Hr)
    as (Hratio & Hpv & _ & _ & _ & _ & Hhv & Huv).
  assert (Hlen' : length (map (fun x => j * x) h)
                  = length (map (fun x => k * x) u))
    by (rewrite !length_map; exact Hlen).
  destruct (calculate_total norm_ppf _ _ Hlen') as (c' & r' & Hc' & Hr').
  destruct (calculate_returns norm_ppf _ _ c' r' Hc' Hr')
    as (Hratio' & Hpv' & _ & _ & _ & _ & Hhv' & Huv').
  exists r, r'. split; [exact Hr |]. split; [exact Hr' |].
  rewrite Hratio', Hpv', Hhv', Huv', Hratio, Hpv, Hhv, Huv.
  rewrite (np_cov_scale j k h u c c' Hc Hc'), !np_var_scale.
  revert Hv. generalize (np_var h) (np_var u) (m01 c). intros vh vu cv Hv.
  simpl. repeat split; try reflexivity; field; auto.
Qed.

Lemma calculate_rescaled_witness :
  exists r r',
    Exact.calculate Exact.square_a Exact.square_b = inr r /\
    Exact.calculate (map (fun x => 2 * x) Exact.square_a)
                    (map (fun x => 3 * x) Exact.square_b) = inr r' /\
    optimal_hedge_ratio r' = 3 / 2 * optimal_hedge_ratio r /\
    portfolio_variance r' = 3 * 3 * portfolio_variance r /\
    hedged_variance r' = 2 * 2 * hedged_variance r /\
    unhedged_variance r' = 3 * 3 * unhedged_variance r.
Proof.
  apply (calculate_rescaled
           Exact.norm_ppf 2 3 Exact.square_a Exact.square_b).
  - reflexivity.
  - lra.
  - exact_eval. lra.
Defined.

(** ** An exposure that is a linear function of the hedge *)

Lemma deviations_affine (a k : R) (l : list R) :
  deviations (map (fun x => a + k * x) l)
  = map (fun d => k * d) (deviations l).
Proof.
  replace (map (fun x => a + k * x) l)
    with (map (fun y => y + a) (map (fun x => k * x) l)).
  - rewrite deviations_shift. apply deviations_scale.
  - rewrite map_map. apply map_ext. intros x. lra.
Qed.

(** X5.  In exact arithmetic, when every unhedged return is
    [a + k * hedged], with N >= 2 observations and a hedged variance that
    is not zero, the hedge ratio returned is [k * N / (N - 1)], not [k],
    and the portfolio variance returned is
    [- (2 N - 1) / (N - 1)^2] times the unhedged variance, not zero. *)
Theorem linear_exposure_statistics
    (norm_ppf : R -> R) (a k : R) (h : list R) :
  (2 <= length h)%nat ->
  np_var h <> 0 ->
  exists r,
    calculate_optimal_hedge_ratio norm_ppf h (map (fun x => a + k * x) h)
      = inr r /\
    optimal_hedge_ratio r = k * (IZR (count h) / IZR (count h - 1)) /\
    portfolio_variance r
      = - (2 * IZR (count h) - 1) / (IZR (count h - 1) * IZR (count h - 1))
        * unhedged_variance r.
Proof.
  intros Hn Hv.
  set (u := map (fun x => a + k * x) h).
  assert (Hlen : length h = length u)
    by (unfold u; rewrite length_map; reflexivity).
  destruct (calculate_total norm_ppf h u Hlen) as (c & r & Hc & Hr).
  destruct (calculate_returns norm_ppf h u c r Hc Hr)
    as (Hratio & Hpv & _ & _ & _ & _ & _ & Huv).
  exists r. split; [exact Hr |].
  rewrite Hratio, Hpv, Huv, (np_cov_m01 h u c Hc Hn).
  assert (Hvu : np_var u = k * k * np_var h).
  { rewrite !np_var_as_dot. unfold u.
    rewrite deviations_affine, count_map, np_dot_scale_l, np_dot_scale_r.
    unfold Rdiv. lra. }
  assert (Hd : np_dot (deviations h) (deviations u)
               = k * (np_var h * IZR (count h))).
  { unfold u. rewrite deviations_affine, np_dot_scale_r, np_var_as_dot.
    assert (HN : IZR (count h) <> 0)
      by (apply not_0_IZR; unfold count; lia).
    field. exact HN. }
  rewrite Hvu, Hd.
  assert (HN : IZR (count h) <> 0)
    by (apply not_0_IZR; unfold count; lia).
  assert (HN1 : IZR (count h - 1) <> 0)
    by (apply not_0_IZR; unfold count; lia).
  assert (HNN : IZR (count h - 1) = IZR (count h) - 1)
    by (rewrite minus_IZR; reflexivity).
  revert Hv HN HN1 HNN.
  generalize (np_var h) (IZR (count h)) (IZR (count h - 1)).
  intros v n n1 Hv HN HN1 HNN. simpl. subst n1.
  split; field; auto.
Qed.

Lemma linear_exposure_statistics_witness :
  exists r,
    Exact.calculate Exact.ramp (map (fun x => 7 + 3 * x) Exact.ramp)
      = inr r /\
    optimal_hedge_ratio r
      = 3 * (IZR (count Exact.ramp) / IZR (count Exact.ramp - 1)) /\
    portfolio_variance r
      = - (2 * IZR (count Exact.ramp) - 1)
        / (IZR (count Exact.ramp - 1) * IZR (count Exact.ramp - 1))
        * unhedged_variance r.
Proof.
  apply (linear_exposure_statistics Exact.norm_ppf 7 3 Exact.ramp).
  - simpl. lia.
  - exact_eval. lra.
Defined.

(** ** Series whose deviations are orthogonal *)

(** X6.  In exact arithmetic, when the deviations of the two series
    have product zero (and neither variance is zero), the calculator
    hedges nothing: the hedge ratio, the correlation, the R-squared, the
    variance reduction and the VaR reduction are zero and the portfolio
    variance is the unhedged variance. *)
Theorem orthogonal_series_statistics
    (norm_ppf : R -> R) (h u : list R) :
  length h = length u ->
  np_var h <> 0 ->
  np_var u <> 0 ->
  norm_ppf confidence_level <> 0 ->
  np_dot (deviations h) (deviations u) = 0 ->
  exists r,
    calculate_optimal_hedge_ratio norm_ppf h u = inr r /\
    optimal_hedge_ratio r = 0 /\
    portfolio_variance r = unhedged_variance r /\
    correlation r = 0 /\
    rsquared (hedge_effectiveness r) = 0 /\
    variance_reduction (hedge_effectiveness r) = 0 /\
    var_reduction (hedge_effectiveness r) = 0.
Proof.
  intros Hlen Hvh Hvu Hz Hd.
  destruct (calculate_total norm_ppf h u Hlen) as (c & r & Hc & Hr).
  destruct (calculate_returns norm_ppf h u c r Hc Hr)
    as (Hratio & Hpv & Hcorr & Hrsq & Hvr & Hvar & _ & Huv).
  exists r. split; [exact Hr |].
  assert (Hm : m01 c = 0).
  { unfold np_cov, np_cov_ddof in Hc.
    destruct (negb (Nat.eqb (length h) (length u))); [discriminate Hc |].
    injection Hc as <-. cbn [m01]. rewrite Hd. simpl. lra. }
  assert (Hsu : sqrt (np_var u) <> 0).
  { pose proof (np_var_nonneg u).
    pose proof (sqrt_lt_R0 (np_var u)). lra. }
  rewrite Hrsq, Hcorr, Hratio, Huv.
  assert (Hpv' : portfolio_variance r = np_var u).
  { rewrite Hpv, Hm. simpl. unfold Rdiv. lra. }
  split; [rewrite Hm; simpl; unfold Rdiv; lra |].
  split; [exact Hpv' |].
  split; [rewrite Hm; simpl; unfold Rdiv; lra |].
  split; [rewrite Hm; simpl; unfold Rdiv; lra |].
  split.
  - rewrite Hvr. rewrite <- Hpv, Hpv'. simpl. unfold Rdiv. lra.
  - rewrite Hvar. rewrite <- Hpv, Hpv'. simpl. unfold Rdiv. lra.
Qed.

Lemma orthogonal_series_statistics_witness :
  exists r,
    Exact.calculate Exact.square_a Exact.square_b = inr r /\
    optimal_hedge_ratio r = 0 /\
    portfolio_variance r = unhedged_variance r /\
    correlation r = 0 /\
    rsquared (hedge_effectiveness r) = 0 /\
    variance_reduction (hedge_effectiveness r) = 0 /\
    var_reduction (hedge_effectiveness r) = 0.
Proof.
  apply (orthogonal_series_statistics
           Exact.norm_ppf Exact.square_a Exact.square_b).
  - reflexivity.
  - exact_eval. lra.
  - exact_eval. lra.
  - unfold Exact.norm_ppf, Exact.z_score_95. lra.
  - exact_eval. lra.
Defined.

(** ** The three effectiveness measures *)

Lemma np_var_pos (a : list R) : np_var a <> 0 -> 0 < np_var a.
Proof. intros Hne. pose proof (np_var_nonneg a). lra. Qed.

(** The square of a quotient by two square roots. *)
Lemma correlation_squared (c vh vu : R) :
  0 < vh -> 0 < vu ->
  c / (sqrt vh * sqrt vu) * (c / (sqrt vh * sqrt vu)) = c * c / (vh * vu).
Proof.
  intros Hh Hu.
  pose proof (sqrt_lt_R0 vh Hh) as Hsh.
  pose proof (sqrt_lt_R0 vu Hu) as Hsu.
  rewrite <- (sqrt_sqrt vh) at 3 by lra.
  rewrite <- (sqrt_sqrt vu) at 3 by lra.
  field. split; lra.
Qed.

(** X7.  In exact arithmetic, for two series of one length whose
    variances are not zero, two of the effectiveness measures coincide:
    [variance_reduction] equals [rsquared], and the portfolio variance is
    the unhedged variance times [1 - rsquared].  In particular the
    variance reduction is never negative. *)
Theorem variance_reduction_is_rsquared
    (norm_ppf : R -> R) (h u : list R) :
  length h = length u ->
  np_var h <> 0 ->
  np_var u <> 0 ->
  exists r,
    calculate_optimal_hedge_ratio norm_ppf h u = inr r /\
    variance_reduction (hedge_effectiveness r)
      = rsquared (hedge_effectiveness r) /\
    portfolio_variance r
      = unhedged_variance r * (1 - rsquared (hedge_effectiveness r)) /\
    0 <= variance_reduction (hedge_effectiveness r).
Proof.
  intros Hlen Hvh Hvu.
  destruct (calculate_total norm_ppf h u Hlen) as (c & r & Hc & Hr).
  destruct (calculate_returns norm_ppf h u c r Hc Hr)
    as (_ & Hpv & Hcorr & Hrsq & Hvr & _ & _ & Huv).
  exists r. split; [exact Hr |].
  apply np_var_pos in Hvh. apply np_var_pos in Hvu.
  assert (Hrs : rsquared (hedge_effectiveness r)
                = m01 c * m01 c / (np_var h * np_var u)).
  { rewrite Hrsq, Hcorr. unfold np_std. simpl.
    apply correlation_squared; assumption. }
  rewrite Hvr, Hpv, Huv, Hrs.
  revert Hvh Hvu. generalize (np_var h) (np_var u) (m01 c).
  intros vh vu cv Hvh Hvu. simpl.
  assert (E : (vu - (vu + cv / vh * (cv / vh) * vh - 2 * (cv / vh) * cv))
              / vu = cv * cv / (vh * vu)) by (field; split; lra).
  split; [exact E |]. split; [field; split; lra |].
  rewrite E. apply Rdiv_nonneg; [apply Rle_0_sqr | nra].
Qed.

Lemma variance_reduction_is_rsquared_witness :
  exists r,
    Exact.calculate Exact.ramp Exact.square_a_long = inr r /\
    variance_reduction (hedge_effectiveness r)
      = rsquared (hedge_effectiveness r) /\
    portfolio_variance r
      = unhedged_variance r * (1 - rsquared (hedge_effectiveness r)) /\
    0 <= variance_reduction (hedge_effectiveness r).
Proof.
  apply (variance_reduction_is_rsquared
           Exact.norm_ppf Exact.ramp Exact.square_a_long).
  - reflexivity.
  - exact_eval. lra.
  - unfold Exact.square_a_long. exact_eval. lra.
Defined.

(** X8.  In exact arithmetic the VaR reduction is a function of the
    R-squared alone: in a returned record whose variances are not zero and
    whose R-squared is at most 1, [var_reduction] is
    [1 - sqrt (1 - rsquared)], whatever non-zero value the normal quantile
    takes. *)
Theorem var_reduction_from_rsquared
    (norm_ppf : R -> R) (h u : list R) (r : HedgeStatistics R) :
  calculate_optimal_hedge_ratio norm_ppf h u = inr r ->
  norm_ppf confidence_level <> 0 ->
  hedged_variance r <> 0 ->
  unhedged_variance r <> 0 ->
  rsquared (hedge_effectiveness r) <= 1 ->
  var_reduction (hedge_effectiveness r)
  = 1 - sqrt (1 - rsquared (hedge_effectiveness r)).
Proof.
  intros Hr Hz Hvh Hvu Hle.
  destruct (np_cov h u) as [e | c] eqn:Hc.
  { apply (calculate_raises norm_ppf) in Hc. rewrite Hc in Hr.
    discriminate Hr. }
  destruct (calculate_returns norm_ppf h u c r Hc Hr)
    as (_ & Hpv & Hcorr & Hrsq & _ & Hvar & Hhv & Huv).
  rewrite Hhv in Hvh. rewrite Huv in Hvu.
  apply np_var_pos in Hvh. apply np_var_pos in Hvu.
  assert (Hrs : rsquared (hedge_effectiveness r)
                = m01 c * m01 c / (np_var h * np_var u)).
  { rewrite Hrsq, Hcorr. unfold np_std. simpl.
    apply correlation_squared; assumption. }
  rewrite Hrs in Hle |- *. rewrite Hvar.
  revert Hvh Hvu Hz Hle.
  generalize (norm_ppf confidence_level) (np_var h) (np_var u) (m01 c).
  intros z vh vu cv Hvh Hvu Hz Hle. simpl.
  assert (Hpvq : vu + cv / vh * (cv / vh) * vh - 2 * (cv / vh) * cv
                 = vu * (1 - cv * cv / (vh * vu)))
    by (field; split; lra).
  rewrite Hpvq.
  assert (Hq : 0 <= 1 - cv * cv / (vh * vu)) by lra.
  rewrite sqrt_mult by lra.
  assert (Hs : sqrt vu <> 0).
  { pose proof (sqrt_lt_R0 vu Hvu). lra. }
  field. split; assumption.
Qed.

Lemma var_reduction_from_rsquared_witness :
  exists r,
    Exact.calculate Exact.square_a Exact.square_b = inr r /\
    var_reduction (hedge_effectiveness r)
    = 1 - sqrt (1 - rsquared (hedge_effectiveness r)).
Proof.
  eexists. split; [reflexivity |].
  apply (var_reduction_from_rsquared
           Exact.norm_ppf Exact.square_a Exact.square_b).
  - reflexivity.
  - unfold Exact.norm_ppf, Exact.z_score_95. lra.
  - exact_eval. lra.
  - exact_eval. lra.
  - exact_eval.
    match goal with
    | |- ?x / _ * (?x / _) <= 1 => replace x with 0 by lra
    end.
    unfold Rdiv. lra.
Defined.

(** ** How far the statistics can go *)

(** X9.  In exact arithmetic, for two series of one length N >= 2 whose
    variances are not zero, the correlation returned lies between
    [- N / (N - 1)] and [N / (N - 1)], the R-squared is at most the square
    of that bound, and the portfolio variance is at least
    [- (2 N - 1) / (N - 1)^2] times the unhedged variance. *)
Theorem statistics_bounds
    (norm_ppf : R -> R) (h u : list R) :
  length h = length u ->
  (2 <= length h)%nat ->
  np_var h <> 0 ->
  np_var u <> 0 ->
  let q := IZR (count h) / IZR (count h - 1) in
  exists r,
    calculate_optimal_hedge_ratio norm_ppf h u = inr r /\
    - q <= correlation r <= q /\
    rsquared (hedge_effectiveness r) <= q * q /\
    - (2 * IZR (count h) - 1) / (IZR (count h - 1) * IZR (count h - 1))
      * unhedged_variance r <= portfolio_variance r.
Proof.
  intros Hlen Hn Hvh Hvu q.
  destruct (calculate_total norm_ppf h u Hlen) as (c & r & Hc & Hr).
  destruct (calculate_returns norm_ppf h u c r Hc Hr)
    as (_ & Hpv & Hcorr & Hrsq & _ & _ & _ & Huv).
  exists r. split; [exact Hr |].
  apply np_var_pos in Hvh. apply np_var_pos in Hvu.
  assert (HN : 2 <= IZR (count h)) by (apply IZR_le; unfold count; lia).
  assert (HN1 : IZR (count h - 1) = IZR (count h) - 1)
    by (rewrite minus_IZR; reflexivity).
  assert (Hcnt : count u = count h) by (unfold count; rewrite Hlen; reflexivity).
  assert (Hrs : rsquared (hedge_effectiveness r)
                = m01 c * m01 c / (np_var h * np_var u)).
  { rewrite Hrsq, Hcorr. unfold np_std. simpl.
    apply correlation_squared; assumption. }
  assert (Hq0 : 0 < q) by (unfold q; rewrite HN1; apply Rdiv_lt_0_compat; lra).
  assert (Hbound : rsquared (hedge_effectiveness r) <= q * q).
  { rewrite Hrs, (np_cov_m01 h u c Hc Hn).
    rewrite (np_var_as_dot h) in Hvh |- *.
    rewrite (np_var_as_dot u), Hcnt in Hvu |- *.
    pose proof (np_dot_cauchy_schwarz (deviations h) (deviations u)) as HCS.
    pose proof (np_dot_self_nonneg (deviations h)) as HA0.
    pose proof (np_dot_self_nonneg (deviations u)) as HB0.
    unfold q. rewrite HN1. revert Hvh Hvu HCS HA0 HB0 HN.
    generalize (np_dot (deviations h) (deviations u))
               (np_dot (deviations h) (deviations h))
               (np_dot (deviations u) (deviations u)) (IZR (count h)).
    intros D A B n Hvh Hvu HCS HA0 HB0 HN.
    assert (HA : 0 < A).
    { destruct (Req_dec A 0) as [-> | Hne]; [| lra].
      unfold Rdiv in Hvh. lra. }
    assert (HB : 0 < B).
    { destruct (Req_dec B 0) as [-> | Hne]; [| lra].
      unfold Rdiv in Hvu. lra. }
    assert (HAB : 0 < A * B) by (apply Rmult_lt_0_compat; assumption).
    replace (D / (n - 1) * (D / (n - 1)) / (A / n * (B / n)))
      with (D * D / (A * B) * (n / (n - 1) * (n / (n - 1))))
      by (field; repeat split; lra).
    assert (Hratio : D * D / (A * B) <= 1).
    { apply (Rmult_le_reg_r (A * B)); [exact HAB |].
      unfold Rdiv. rewrite Rmult_assoc, Rinv_l by lra. lra. }
    assert (Hqq : 0 <= n / (n - 1) * (n / (n - 1))) by apply Rle_0_sqr.
    rewrite <- (Rmult_1_l (n / (n - 1) * (n / (n - 1)))) at 2.
    apply Rmult_le_compat_r; assumption. }
  split.
  - rewrite Hrsq in Hbound. simpl in Hbound.
    generalize dependent (correlation r). intros x _ Hx.
    split; apply Rnot_lt_le; intros Hlt.
    + assert (H2 : q * q < (- x) * (- x))
        by (apply Rmult_le_0_lt_compat; lra).
      lra.
    + assert (H2 : q * q < x * x)
        by (apply Rmult_le_0_lt_compat; lra).
      lra.
  - split; [exact Hbound |].
    assert (Hpvq : portfolio_variance r
                   = np_var u * (1 - rsquared (hedge_effectiveness r))).
    { rewrite Hrs, Hpv. revert Hvh Hvu.
      generalize (np_var h) (np_var u) (m01 c). intros vh vu cv Hvh Hvu.
      simpl. field. split; lra. }
    rewrite Hpvq, Huv.
    assert (Hqq : q * q = 1 + (2 * IZR (count h) - 1)
                              / (IZR (count h - 1) * IZR (count h - 1))).
    { unfold q. rewrite HN1. field. lra. }
    rewrite Hqq in Hbound.
    replace (- (2 * IZR (count h) - 1)
             / (IZR (count h - 1) * IZR (count h - 1)) * np_var u)
      with (- ((2 * IZR (count h) - 1)
               / (IZR (count h - 1) * IZR (count h - 1))) * np_var u)
      by (unfold Rdiv; ring).
    revert Hbound Hvu.
    generalize (rsquared (hedge_effectiveness r)) (np_var u)
               ((2 * IZR (count h) - 1)
                / (IZR (count h - 1) * IZR (count h - 1))).
    intros rs vu t Hb Hvu.
    nra.
Qed.

Lemma statistics_bounds_witness :
  let q := IZR (count Exact.ramp) / IZR (count Exact.ramp - 1) in
  exists r,
    Exact.calculate Exact.ramp Exact.square_a_long = inr r /\
    - q <= correlation r <= q /\
    rsquared (hedge_effectiveness r) <= q * q /\
    - (2 * IZR (count Exact.ramp) - 1)
      / (IZR (count Exact.ramp - 1) * IZR (count Exact.ramp - 1))
      * unhedged_variance r <= portfolio_variance r.
Proof.
  apply (statistics_bounds Exact.norm_ppf Exact.ramp Exact.square_a_long).
  - reflexivity.
  - simpl. lia.
  - exact_eval. lra.
  - unfold Exact.square_a_long. exact_eval. lra.
Defined.

(** ** Exchanging the two series *)

Lemma np_cov_swap (h u : list R) (c c' : Matrix2 R) :
  np_cov h u = inr c -> np_cov u h = inr c' -> m01 c' = m01 c.
Proof.
  unfold np_cov, np_cov_ddof. intros Hc Hc'.
  destruct (Nat.eqb (length h) (length u)) eqn:E;
    [| discriminate Hc].
  apply Nat.eqb_eq in E.
  assert (Hcnt : count u = count h) by (unfold count; rewrite E; reflexivity).
  rewrite <- E, Nat.eqb_refl, Hcnt in Hc'. cbn [negb] in Hc, Hc'.
  injection Hc as <-. injection Hc' as <-. cbn [m01].
  rewrite (np_dot_comm (deviations u) (deviations h)). reflexivity.
Qed.

(** X10.  In exact arithmetic, hedging the second series with the first
    instead of the first with the second exchanges the two variances and
    leaves the correlation and the R-squared as they were; when neither
    variance is zero the two hedge ratios multiply to the R-squared. *)
Theorem calculate_swapped
    (norm_ppf : R -> R) (h u : list R) :
  length h = length u ->
  exists r r',
    calculate_optimal_hedge_ratio norm_ppf h u = inr r /\
    calculate_optimal_hedge_ratio norm_ppf u h = inr r' /\
    correlation r' = correlation r /\
    rsquared (hedge_effectiveness r') = rsquared (hedge_effectiveness r) /\
    hedged_variance r' = unhedged_variance r /\
    unhedged_variance r' = hedged_variance r /\
    (hedged_variance r <> 0 -> unhedged_variance r <> 0 ->
     optimal_hedge_ratio r * optimal_hedge_ratio r'
       = rsquared (hedge_effectiveness r)).
Proof.
  intros Hlen.
  destruct (calculate_total norm_ppf h u Hlen) as (c & r & Hc & Hr).
  destruct (calculate_returns norm_ppf h u c r Hc Hr)
    as (Hratio & _ & Hcorr & Hrsq & _ & _ & Hhv & Huv).
  destruct (calculate_total norm_ppf u h (eq_sym Hlen))
    as (c' & r' & Hc' & Hr').
  destruct (calculate_returns norm_ppf u h c' r' Hc' Hr')
    as (Hratio' & _ & Hcorr' & Hrsq' & _ & _ & Hhv' & Huv').
  exists r, r'. split; [exact Hr |]. split; [exact Hr' |].
  pose proof (np_cov_swap h u c c' Hc Hc') as Hm.
  assert (Hcc : correlation r' = correlation r).
  { rewrite Hcorr', Hcorr, Hm.
    generalize (np_std h) (np_std u) (m01 c). intros sh su cv. simpl.
    rewrite (Rmult_comm su sh). reflexivity. }
  split; [exact Hcc |].
  split; [rewrite Hrsq', Hrsq, Hcc; reflexivity |].
  split; [rewrite Hhv', Huv; reflexivity |].
  split; [rewrite Huv', Hhv; reflexivity |].
  intros Hvh Hvu. rewrite Hhv in Hvh. rewrite Huv in Hvu.
  rewrite Hratio, Hratio', Hm, Hrsq, Hcorr.
  pose proof (np_var_pos h Hvh) as Hh. pose proof (np_var_pos u Hvu) as Hu.
  unfold np_std. revert Hh Hu.
  generalize (np_var h) (np_var u) (m01 c). intros vh vu cv Hh Hu. simpl.
  rewrite (correlation_squared cv vh vu Hh Hu).
  field. split; lra.
Qed.

Lemma calculate_swapped_witness :
  exists r r',
    Exact.calculate Exact.ramp Exact.square_a_long = inr r /\
    Exact.calculate Exact.square_a_long Exact.ramp = inr r' /\
    correlation r' = correlation r /\
    rsquared (hedge_effectiveness r') = rsquared (hedge_effectiveness r) /\
    hedged_variance r' = unhedged_variance r /\
    unhedged_variance r' = hedged_variance r /\
    (hedged_variance r <> 0 -> unhedged_variance r <> 0 ->
     optimal_hedge_ratio r * optimal_hedge_ratio r'
       = rsquared (hedge_effectiveness r)).
Proof.
  apply (calculate_swapped Exact.norm_ppf Exact.ramp Exact.square_a_long).
  reflexivity.
Defined.

(** ** Zero variance *)

Lemma np_sum_squares_zero (l : list R) :
  np_sum (map (fun d => d * d) l) = 0 -> Forall (fun d => d = 0) l.
Proof.
  induction l as [| x l IH]; intros Hs; [constructor |].
  simpl map in Hs. rewrite np_sum_cons in Hs.
  pose proof (np_sum_squares_nonneg l) as Hl. simpl in Hl.
  pose proof (Rle_0_sqr x) as Hx. unfold Rsqr in Hx.
  constructor.
  - assert (Hxx : x * x = 0) by lra.
    apply Rmult_integral in Hxx. destruct Hxx; assumption.
  - apply IH. lra.
Qed.

Lemma np_sum_constant (v : R) (l : list R) :
  Forall (fun x => x = v) l -> np_sum l = IZR (count l) * v.
Proof.
  induction 1 as [| x l Hx _ IH].
  - rewrite np_sum_nil. unfold count. simpl. lra.
  - rewrite np_sum_cons, IH, count_cons, plus_IZR, Hx. lra.
Qed.

Lemma np_sum_squares_of_constant (v : R) (l : list R) :
  Forall (fun x => x = v) l ->
  np_sum (map (fun x => (x - v) * (x - v)) l) = 0.
Proof.
  induction 1 as [| x l Hx _ IH].
  - apply np_sum_nil.
  - simpl map. rewrite np_sum_cons, IH, Hx. lra.
Qed.

(** A series that is not empty has variance zero exactly when all its
    items are equal. *)
Lemma np_var_zero_iff_constant (a : list R) :
  a <> [] ->
  np_var a = 0 <-> exists v, Forall (fun x => x = v) a.
Proof.
  intros Hne.
  assert (HN : IZR (count a) <> 0).
  { apply not_0_IZR. destruct a as [| x a]; [contradiction |].
    rewrite count_cons. pose proof (count_nonneg a). lia. }
  unfold np_var, np_var_ddof.
  rewrite Z.sub_0_r, Z.max_l by apply count_nonneg.
  split.
  - intros Hv. exists (np_mean a).
    assert (Hs : np_sum (map (fun d => d * d) (deviations a)) = 0).
    { simpl in Hv. apply (Rmult_eq_reg_r (/ IZR (count a)));
        [| apply Rinv_neq_0_compat; exact HN].
      unfold Rdiv in Hv. rewrite Hv. lra. }
    apply np_sum_squares_zero in Hs. unfold deviations in Hs.
    rewrite Forall_map in Hs. apply Forall_impl with (2 := Hs).
    generalize (np_mean a). intros m x Hx. simpl in Hx. lra.
  - intros [v Hv].
    assert (Hm : np_mean a = v).
    { unfold np_mean. rewrite (np_sum_constant v a Hv). simpl.
      field. exact HN. }
    assert (Hs : np_sum (map (fun d => d * d) (deviations a)) = 0).
    { unfold deviations. rewrite Hm, map_map.
      apply (np_sum_squares_of_constant v a Hv). }
    simpl. simpl in Hs. rewrite Hs. unfold Rdiv. lra.
Qed.

(** X11.  In exact arithmetic, for two series of one length that are not
    empty, the two variances in the returned record are never negative,
    and each is zero exactly when its series is constant. *)
Theorem variances_nonnegative_zero_iff_constant
    (norm_ppf : R -> R) (h u : list R) :
  length h = length u ->
  h <> [] ->
  exists r,
    calculate_optimal_hedge_ratio norm_ppf h u = inr r /\
    0 <= hedged_variance r /\
    0 <= unhedged_variance r /\
    (hedged_variance r = 0 <-> exists v, Forall (fun x => x = v) h) /\
    (unhedged_variance r = 0 <-> exists v, Forall (fun x => x = v) u).
Proof.
  intros Hlen Hne.
  assert (Hne' : u <> []).
  { intros ->. destruct h; [contradiction | discriminate Hlen]. }
  destruct (calculate_total norm_ppf h u Hlen) as (c & r & Hc & Hr).
  destruct (calculate_returns norm_ppf h u c r Hc Hr)
    as (_ & _ & _ & _ & _ & _ & Hhv & Huv).
  exists r. split; [exact Hr |]. rewrite Hhv, Huv.
  split; [apply np_var_nonneg |]. split; [apply np_var_nonneg |].
  split; apply np_var_zero_iff_constant; assumption.
Qed.

Lemma variances_nonnegative_zero_iff_constant_witness :
  exists r,
    Exact.calculate Exact.ramp Exact.square_a_long = inr r /\
    0 <= hedged_variance r /\
    0 <= unhedged_variance r /\
    (hedged_variance r = 0
       <-> exists v, Forall (fun x => x = v) Exact.ramp) /\
    (unhedged_variance r = 0
       <-> exists v, Forall (fun x => x = v) Exact.square_a_long).
Proof.
  apply (variances_nonnegative_zero_iff_constant
           Exact.norm_ppf Exact.ramp Exact.square_a_long).
  - reflexivity.
  - discriminate.
Defined.
